(** * CREATE statement execution (package db, create.go)

    A shallow embedding of the three functions of db/create.go:
    [executeCreate] (target resolution and fan-out), [fetchCreate] (nested
    CREATE with its [$parent]/[$parents] variable frame) and [runCreate]
    (the per-document lifecycle).  What the file calls but does not define
    (access control, the expression evaluator, the iterator, the stage
    methods of a document, [dive]) is kept behind two interfaces,
    [Executor] and [Document]. *)

From stdpp Require Import base list strings option.
From Stdlib Require Import ZArith DecimalString.

Local Open Scope string_scope.
Local Open Scope list_scope.
Local Set Warnings "-register-all".

(** ** Values

    Go's [interface{}] as seen by create.go: the AST nodes that the type
    switch of [executeCreate] tells apart, the two shapes a subquery result
    can take, and the remaining scalars.  Of [*sql.Model] and [*sql.Batch]
    the file reads only [TB]; the rest of the struct travels along. *)
Inductive value : Type :=
| Null                                      (* nil *)
| Boolean (b : bool)
| Number (n : Z)
| Str (s : string)
| Table (tb : string)                       (* *sql.Table{TB} *)
| Ident (va : string)                       (* *sql.Ident{VA} *)
| Thing (tb : string) (id : value)          (* *sql.Thing{TB, ID} *)
| Model (tb : string) (gen : list Z)        (* *sql.Model{TB, ...} *)
| Batch (tb : string) (ba : list value)     (* *sql.Batch{TB, ...} *)
| Array (l : list value)                    (* []interface{} *)
| Object (m : list (string * value)).       (* map[string]interface{} *)

Definition is_array (v : value) : bool :=
  match v with Array _ => true | _ => false end.

(** ** Errors *)
Inductive error : Type :=
| ExistError (exist : value)                (* &ExistError{exist: d.id} *)
| Errorf (msg : string)                     (* fmt.Errorf(...) *)
| Failure (what : string).                  (* an error of a collaborator *)

(** A Go result pair [(interface{}, error)]. *)
Definition result : Type := value * option error.

(** ** Path and variable names

    Modelled from the spec: the constants [docKeyOne], [docKeyAll],
    [docKeyId], [varKeyParent] and [varKeyParents] are declared in package
    db outside create.go.  The spec names the bindings [parent] and
    [parents]; the result keys select the one element, every element, and
    the identifier of a row. *)
Definition docKeyOne : string := "0".
Definition docKeyAll : string := "*".
Definition docKeyId : string := "id".
Definition varKeyParent : string := "parent".
Definition varKeyParents : string := "parents".

(** ** util/data documents *)
Module data.

(** Modelled from the spec: the document wrapper of util/data ([New],
    [Consume], [Data], [Set], [Array], [Append], [Get]) is not part of
    create.go.  Only what create.go calls is modelled: [Set], [Array] and
    [Append] on a one-segment path of a mapping, [Get] on paths through
    mappings and through sequences by [docKeyOne] and [docKeyAll].
    [Append] extends the sequence at the path by a single value, or by
    every element when it is handed a sequence, which is what makes a
    frame's [parents] the enclosing [parents] plus one document. *)
Record Doc : Type := Consume { Data : value }.

Definition New : Doc := Consume (Object []).

Fixpoint field (k : string) (m : list (string * value)) : option value :=
  match m with
  | [] => None
  | (k', v) :: m' => if String.eqb k k' then Some v else field k m'
  end.

Fixpoint assign (k : string) (v : value) (m : list (string * value))
  : list (string * value) :=
  match m with
  | [] => [(k, v)]
  | (k', v') :: m' =>
      if String.eqb k k' then (k, v) :: m' else (k', v') :: assign k v m'
  end.

Fixpoint get (path : list string) (v : value) : value :=
  match path with
  | [] => v
  | p :: rest =>
      match v with
      | Object m =>
          match field p m with Some x => get rest x | None => Null end
      | Array l =>
          if String.eqb p docKeyAll then Array (map (get rest) l)
          else if String.eqb p docKeyOne then
            match l with x :: _ => get rest x | [] => Null end
          else Null
      | _ => Null
      end
  end.

Definition Get (path : list string) (d : Doc) : Doc :=
  Consume (get path (Data d)).

(** [d.Set(v, k)]; a failure (the root is no mapping) leaves [d] as it
    is, and create.go drops the error. *)
Definition Set_ (v : value) (k : string) (d : Doc) : Doc :=
  match Data d with
  | Object m => Consume (Object (assign k v m))
  | _ => d
  end.

Definition Array_ (k : string) (d : Doc) : Doc := Set_ (Array []) k d.

(** What [Append] adds for a value: its elements, or the value itself. *)
Definition items (v : value) : list value :=
  match v with
  | Array vs => vs
  | _ => [v]
  end.

Definition Append (v : value) (k : string) (d : Doc) : Doc :=
  match Data (Get [k] d) with
  | Array a => Set_ (Array (a ++ items v)) k d
  | _ => d
  end.

End data.

(** ** context.Context

    A context is the chain of [WithValue] bindings; [Value] finds the
    innermost binding of a key. *)
Inductive ctxKey : Type :=
| ctxKeySubs
| ctxKeyDive
| ctxKeyOther (name : string).

Inductive ctxVal : Type :=
| CtxDoc (d : data.Doc)                     (* a *data.Doc *)
| CtxInt (n : Z)
| CtxAny (v : value).

Definition ctxKey_eqb (a b : ctxKey) : bool :=
  match a, b with
  | ctxKeySubs, ctxKeySubs => true
  | ctxKeyDive, ctxKeyDive => true
  | ctxKeyOther x, ctxKeyOther y => String.eqb x y
  | _, _ => false
  end.

Definition context : Type := list (ctxKey * ctxVal).

Definition WithValue (ctx : context) (k : ctxKey) (v : ctxVal) : context :=
  (k, v) :: ctx.

Fixpoint Value (ctx : context) (k : ctxKey) : option ctxVal :=
  match ctx with
  | [] => None
  | (k', v) :: parent => if ctxKey_eqb k k' then Some v else Value parent k
  end.

(** ** Statements, executors and storage keys *)

(** [sql.CreateStatement], as far as create.go reads it.  The AST of package
    sql is outside create.go: the types of expressions and of the projection
    token are left open. *)
Record CreateStatement (Expr Token : Type) : Type :=
  { What : list Expr; Data : Expr; Echo : Token }.

Arguments What {Expr Token} _.
Arguments Data {Expr Token} _.
Arguments Echo {Expr Token} _.

(** The fields of [*executor] that create.go reads. *)
Record executor : Type := { ns : string; db : string }.

Module keys.

(** [keys.Thing{KV, NS, DB, TB, ID}]; a field left out of the literal holds
    its zero value, the empty string for [TB] and nil for [ID]. *)
Record Thing : Type :=
  { KV : string; NS : string; DB : string; TB : string; ID : value }.

End keys.

(** ** The document lifecycle *)
Inductive Stage : Type :=
| Init | Locked | SetUp | ExistenceChecked | Merged | PermissionChecked
| IndexStored | RecordStored | TableUpdated | LiveNotified | EventFired
| Yielded.

#[global] Instance Stage_eq_dec : EqDecision Stage.
Proof. solve_decision. Defined.

Definition lifecycle : list Stage :=
  [Init; Locked; SetUp; ExistenceChecked; Merged; PermissionChecked;
   IndexStored; RecordStored; TableUpdated; LiveNotified; EventFired;
   Yielded].

(** One line of the run log: the stage entered and the error it gave. *)
Definition entry : Type := Stage * option error.

(** The kinds of evaluated WHAT value that the type switch of
    [executeCreate] has a case for. *)
Definition supported (v : value) : bool :=
  match v with
  | Table _ | Ident _ | Thing _ _ | Model _ _ | Batch _ _
  | Array _ | Object _ => true
  | _ => false
  end.

(** ** Collaborators

    What create.go calls and does not define. *)

(** The methods of [*executor] and the package-level helpers that
    [executeCreate] and [fetchCreate] call.  [world] is everything the
    executor reaches besides its arguments: the transaction, the identifier
    source, the iterator's workers.  An [iterator] is the handle that
    [newIterator] returns. *)
Class Executor (Expr Token auth world iterator : Type) : Type :=
  { AuthNO : auth;                              (* cnf.AuthNO *)
    KV : string;                                (* the package-level KV *)
    access : executor -> context -> auth -> world -> world * option error;
    fetch : executor -> context -> Expr -> option data.Doc -> world ->
            world * result;
    guid_New : world -> world * string;         (* guid.New().String() *)
    newIterator : executor -> context -> CreateStatement Expr Token -> bool ->
                  world -> world * iterator;
    processThing : iterator -> context -> keys.Thing -> world -> world;
    processModel : iterator -> context -> keys.Thing -> value -> world -> world;
    processBatch : iterator -> context -> keys.Thing -> value -> world -> world;
    processOther : iterator -> context -> keys.Thing -> list value -> world ->
                   world;
    Yield : iterator -> context -> world -> world * (list value * option error);
    fmt_v : value -> string;                    (* fmt's rendering of %v *)
    dive : context -> context }.

(** The fields and methods of [*document] that [runCreate] uses.  A
    [document] is the mutable working state of one record, together with
    whatever its methods reach through it. *)
Class Document (Expr Token method document : Type) : Type :=
  { _CREATE : method;                           (* the method tag of CREATE *)
    d_id : document -> value;                   (* d.id *)
    d_val_Exi : document -> bool;               (* d.val.Exi() *)
    init : context -> document -> document * option error;
    lock : context -> document -> document * option error;
    setup : context -> document -> document * option error;
    merge : context -> method -> Expr -> document -> document * option error;
    allow : context -> method -> document -> document * (bool * option error);
    storeIndex : context -> document -> document * option error;
    storeThing : context -> document -> document * option error;
    table : context -> method -> document -> document * option error;
    lives : context -> method -> document -> document * option error;
    event : context -> method -> document -> document * option error;
    yield : context -> CreateStatement Expr Token -> Token -> document ->
            document * result }.

(** ** create.go *)

(** *** executeCreate *)
Section executeCreate.

Context {Expr Token auth world iterator : Type}.
Context `{!Executor Expr Token auth world iterator}.

(** The first loop: every WHAT expression is evaluated, in order, before
    any target is looked at; the first evaluation error ends the call. *)
Fixpoint fetchWhat (e : executor) (ctx : context) (vals : list Expr)
  (what : list value) (w : world) : world * (list value * option error) :=
  match vals with
  | [] => (w, (what, None))
  | val :: vals' =>
      let '(w1, (v, err)) := fetch e ctx val None w in
      match err with
      | Some er => (w1, ([], Some er))
      | None => fetchWhat e ctx vals' (what ++ [v]) w1
      end
  end.

Definition unsupported (v : value) : error :=
  Errorf ("Can not execute CREATE query using value '" +:+ fmt_v v +:+ "'").

Definition thingKey (e : executor) (tb : string) (id : value) : keys.Thing :=
  {| keys.KV := KV; keys.NS := ns e; keys.DB := db e;
     keys.TB := tb; keys.ID := id |}.

(** [&keys.Thing{KV: KV, NS: e.ns, DB: e.db}]: no table, no identifier. *)
Definition bareKey (e : executor) : keys.Thing := thingKey e "" Null.

(** The type switch on one evaluated WHAT value. *)
Definition target (i : iterator) (e : executor) (ctx : context) (v : value)
  (w : world) : world * option error :=
  match v with
  | Table tb =>
      let '(w1, g) := guid_New w in
      (processThing i ctx (thingKey e tb (Str g)) w1, None)
  | Ident va =>
      let '(w1, g) := guid_New w in
      (processThing i ctx (thingKey e va (Str g)) w1, None)
  | Thing tb id => (processThing i ctx (thingKey e tb id) w, None)
  | Model tb _ => (processModel i ctx (thingKey e tb Null) v w, None)
  | Batch tb _ => (processBatch i ctx (thingKey e tb Null) v w, None)
  | Array l => (processOther i ctx (bareKey e) l w, None)
  | Object _ => (processOther i ctx (bareKey e) [v] w, None)
  | _ => (w, Some (unsupported v))
  end.

(** The second loop. *)
Fixpoint targets (i : iterator) (e : executor) (ctx : context)
  (what : list value) (w : world) : world * option error :=
  match what with
  | [] => (w, None)
  | v :: rest =>
      let '(w1, err) := target i e ctx v w in
      match err with
      | Some er => (w1, Some er)
      | None => targets i e ctx rest w1
      end
  end.

(** From [newIterator] to [i.Yield]: what happens to the evaluated values. *)
Definition executeWhat (e : executor) (ctx : context)
  (stm : CreateStatement Expr Token) (what : list value) (w : world)
  : world * (list value * option error) :=
  let '(w1, i) := newIterator e ctx stm false w in
  let '(w2, err) := targets i e ctx what w1 in
  match err with
  | Some er => (w2, ([], Some er))
  | None => Yield i ctx w2
  end.

Definition executeCreate (e : executor) (ctx : context)
  (stm : CreateStatement Expr Token) (w : world)
  : world * (list value * option error) :=
  let '(w1, err) := access e ctx AuthNO w in
  match err with
  | Some er => (w1, ([], Some er))
  | None =>
      let '(w2, (what, err)) := fetchWhat e ctx (What stm) [] w1 in
      match err with
      | Some er => (w2, ([], Some er))
      | None => executeWhat e ctx stm what w2
      end
  end.

(** *** fetchCreate *)

(** The context handed to [executeCreate]: [dive], then, for a calling
    document, a fresh variable frame under [ctxKeySubs].  The errors of
    [Set], [Array] and [Append] are dropped. *)
Definition frame (ctx : context) (doc : option data.Doc) : context :=
  let ctx := dive ctx in
  match doc with
  | Some doc =>
      let vars := data.New in
      let vars := data.Set_ (data.Data doc) varKeyParent vars in
      let vars := data.Array_ varKeyParents vars in
      let vars :=
        match Value ctx ctxKeySubs with
        | Some (CtxDoc subs) =>
            data.Append (data.Data (data.Get [varKeyParents] subs))
              varKeyParents vars
        | _ => vars
        end in
      let vars := data.Append (data.Data doc) varKeyParents vars in
      WithValue ctx ctxKeySubs (CtxDoc vars)
  | None => ctx
  end.

(** What [fetchCreate] makes of the outcome of [executeCreate]. *)
Definition collect (r : world * (list value * option error)) : world * result :=
  let '(w, (out, err)) := r in
  match err with
  | Some er => (w, (Null, Some er))
  | None =>
      let all := data.Consume (Array out) in
      match length out with
      | 1 => (w, (data.Data (data.Get [docKeyOne; docKeyId] all), None))
      | _ => (w, (data.Data (data.Get [docKeyAll; docKeyId] all), None))
      end
  end.

Definition fetchCreate (e : executor) (ctx : context)
  (stm : CreateStatement Expr Token) (doc : option data.Doc) (w : world)
  : world * result :=
  collect (executeCreate e (frame ctx doc) stm w).

(** The context inside a chain of nested CREATEs: [fetchCreate] called for
    each calling document in turn, the outermost first. *)
Definition nested (ctx : context) (docs : list data.Doc) : context :=
  fold_left (fun c doc => frame c (Some doc)) docs ctx.

End executeCreate.

(** The variable frame in force in a context, and its two bindings. *)
Definition currentFrame (ctx : context) : option data.Doc :=
  match Value ctx ctxKeySubs with
  | Some (CtxDoc vars) => Some vars
  | _ => None
  end.

Definition currentParent (ctx : context) : option value :=
  data.get [varKeyParent] <$> (data.Data <$> currentFrame ctx).

(** [$parents] of the frame in force, oldest first; no frame, no parents.
    [None] when the frame binds [$parents] to something else than a
    sequence. *)
Definition currentParents (ctx : context) : option (list value) :=
  match currentFrame ctx with
  | Some vars =>
      match data.get [varKeyParents] (data.Data vars) with
      | Array ps => Some ps
      | _ => None
      end
  | None => Some []
  end.

(** The sequence that the frame in force contributes to a new frame. *)
Definition enclosing (ctx : context) : list value :=
  match Value ctx ctxKeySubs with
  | Some (CtxDoc subs) =>
      data.items (data.get [varKeyParents] (data.Data subs))
  | _ => []
  end.

(** *** runCreate *)

(** The state threaded through [runCreate]: the document and the log of the
    stages entered so far. *)
Record run (document : Type) : Type := { doc : document; log : list entry }.

Arguments doc {document} _.
Arguments log {document} _.

(** A computation either goes on with an [A] or has returned. *)
Definition pipeline (document A : Type) : Type :=
  run document -> run document * (A + result).

#[global] Instance pipeline_ret {document : Type} : MRet (pipeline document) :=
  fun A x r => (r, inl x).

#[global] Instance pipeline_bind {document : Type}
  : MBind (pipeline document) :=
  fun A B f c r =>
    match c r with
    | (r', inl x) => f x r'
    | (r', inr res) => (r', inr res)
    end.

Section runCreate.

Context {Expr Token method document : Type}.
Context `{!Document Expr Token method document}.

Definition Return {A : Type} (res : result) : pipeline document A :=
  fun r => (r, inr res).

Definition enter (s : Stage) (err : option error) (d : document)
  (r : run document) : run document :=
  {| doc := d; log := log r ++ [(s, err)] |}.

(** [if err = d.f(ctx); err != nil { return nil, err }] *)
Definition stage (s : Stage) (f : document -> document * option error)
  : pipeline document unit :=
  fun r =>
    let '(d, err) := f (doc r) in
    match err with
    | Some e => (enter s err d r, inr (Null, Some e))
    | None => (enter s err d r, inl tt)
    end.

(** [if d.val.Exi() == true { return nil, &ExistError{exist: d.id} }] *)
Definition existence : pipeline document unit :=
  fun r =>
    if d_val_Exi (doc r) then
      let e := ExistError (d_id (doc r)) in
      (enter ExistenceChecked (Some e) (doc r) r, inr (Null, Some e))
    else (enter ExistenceChecked None (doc r) r, inl tt).

(** [if ok, err = d.allow(ctx, met); err != nil { return nil, err }] *)
Definition permission (f : document -> document * (bool * option error))
  : pipeline document bool :=
  fun r =>
    let '(d, (ok, err)) := f (doc r) in
    match err with
    | Some e => (enter PermissionChecked err d r, inr (Null, Some e))
    | None => (enter PermissionChecked err d r, inl ok)
    end.

(** [return d.yield(ctx, stm, stm.Echo)] *)
Definition yielded (f : document -> document * result)
  : pipeline document result :=
  fun r =>
    let '(d, (v, err)) := f (doc r) in
    (enter Yielded err d r, inr (v, err)).

Definition start (d : document) (c : pipeline document result)
  : run document * result :=
  match c {| doc := d; log := [] |} with
  | (r, inl res) => (r, res)
  | (r, inr res) => (r, res)
  end.

Definition runCreate (ctx : context) (stm : CreateStatement Expr Token)
  (d : document) : run document * result :=
  let met := _CREATE in
  start d (
    stage Init (init ctx) ;;
    stage Locked (lock ctx) ;;
    stage SetUp (setup ctx) ;;
    existence ;;
    stage Merged (merge ctx met (Data stm)) ;;
    ok ← permission (allow ctx met) ;
    if negb ok then Return (Null, None) else
    stage IndexStored (storeIndex ctx) ;;
    stage RecordStored (storeThing ctx) ;;
    stage TableUpdated (table ctx met) ;;
    stage LiveNotified (lives ctx met) ;;
    stage EventFired (event ctx met) ;;
    yielded (yield ctx stm (Echo stm))).

(** *** The lifecycle as a state machine

    The lifecycle in the spec's words, to be compared with [runCreate]:
    the stages are entered in the order of a list; entering a stage calls
    its method on the document the stage before left; a stage that fails
    ends the run, and so does a permission check that says no. *)

(** What entering stage [s] does: the document its method leaves, the error
    it gives, and whether the run may go on when there is none. *)
Definition perform (ctx : context) (stm : CreateStatement Expr Token)
  (s : Stage) (d : document) : document * option error * bool :=
  match s with
  | Init => (init ctx d, true)
  | Locked => (lock ctx d, true)
  | SetUp => (setup ctx d, true)
  | ExistenceChecked =>
      (d, if d_val_Exi d then Some (ExistError (d_id d)) else None, true)
  | Merged => (merge ctx _CREATE (Data stm) d, true)
  | PermissionChecked =>
      let '(d', (ok, err)) := allow ctx _CREATE d in (d', err, ok)
  | IndexStored => (storeIndex ctx d, true)
  | RecordStored => (storeThing ctx d, true)
  | TableUpdated => (table ctx _CREATE d, true)
  | LiveNotified => (lives ctx _CREATE d, true)
  | EventFired => (event ctx _CREATE d, true)
  | Yielded =>
      let '(d', (_, err)) := yield ctx stm (Echo stm) d in (d', err, true)
  end.

Fixpoint state_machine (ctx : context) (stm : CreateStatement Expr Token)
  (ss : list Stage) (r : run document) : run document :=
  match ss with
  | [] => r
  | s :: rest =>
      let '(d', err, go) := perform ctx stm s (doc r) in
      let r' := enter s err d' r in
      match err with
      | Some _ => r'
      | None => if go then state_machine ctx stm rest r' else r'
      end
  end.

End runCreate.

(** The stages a run went through, in order. *)
Definition stages {document : Type} (r : run document) : list Stage :=
  (log r).*1.

(** Entries of stages that went through without an error. *)
Definition passed (ss : list Stage) : list entry := (fun s => (s, None)) <$> ss.

(** ** Reference collaborators

    Small executable stand-ins for the collaborators of create.go, used to
    run the embedding on concrete statements. *)
Module Toy.

(** Expressions: a literal evaluates to itself, a broken one fails. *)
Inductive expr : Type :=
| Lit (v : value)
| Broken (why : string).

Definition statement : Type := CreateStatement expr unit.

(** The executor's world: the iterator's queue and the identifier supply. *)
Record world : Type := { queue : list keys.Thing; guids : nat }.

Definition access (e : executor) (ctx : context) (level : unit) (w : world)
  : world * option error :=
  (w, None).

Definition fetch (e : executor) (ctx : context) (val : expr)
  (doc : option data.Doc) (w : world) : world * result :=
  match val with
  | Lit v => (w, (v, None))
  | Broken why => (w, (Null, Some (Failure why)))
  end.

Fixpoint ticks (n : nat) : string :=
  match n with
  | O => ""
  | S k => "'" +:+ ticks k
  end.

Definition guid_New (w : world) : world * string :=
  ({| queue := queue w; guids := S (guids w) |}, "g" +:+ ticks (guids w)).

Definition newIterator (e : executor) (ctx : context) (stm : statement)
  (vir : bool) (w : world) : world * unit :=
  ({| queue := []; guids := guids w |}, tt).

Definition enqueue (key : keys.Thing) (w : world) : world :=
  {| queue := queue w ++ [key]; guids := guids w |}.

Definition keyed (key : keys.Thing) (tb : string) (id : value) : keys.Thing :=
  {| keys.KV := keys.KV key; keys.NS := keys.NS key; keys.DB := keys.DB key;
     keys.TB := tb; keys.ID := id |}.

Definition processThing (i : unit) (ctx : context) (key : keys.Thing)
  (w : world) : world :=
  enqueue key w.

Definition processModel (i : unit) (ctx : context) (key : keys.Thing)
  (what : value) (w : world) : world :=
  match what with
  | Model tb gen =>
      fold_left (fun w n => enqueue (keyed key tb (Number n)) w) gen w
  | _ => w
  end.

Definition processBatch (i : unit) (ctx : context) (key : keys.Thing)
  (what : value) (w : world) : world :=
  match what with
  | Batch tb ba =>
      fold_left
        (fun w t =>
           match t with
           | Thing tb' id => enqueue (keyed key tb' id) w
           | _ => w
           end) ba w
  | _ => w
  end.

Definition processOther (i : unit) (ctx : context) (key : keys.Thing)
  (what : list value) (w : world) : world :=
  fold_left
    (fun w row =>
       match data.get [docKeyId] row with
       | Thing tb id => enqueue (keyed key tb id) w
       | _ => w
       end) what w.

Definition row (key : keys.Thing) : value :=
  Object [(docKeyId, Thing (keys.TB key) (keys.ID key))].

Definition Yield (i : unit) (ctx : context) (w : world)
  : world * (list value * option error) :=
  ({| queue := []; guids := guids w |}, (map row (queue w), None)).

Definition fmt_v (v : value) : string :=
  match v with
  | Null => "<nil>"
  | Boolean true => "true"
  | Boolean false => "false"
  | Number n => NilZero.string_of_int (Z.to_int n)
  | Str s => s
  | _ => "value"
  end.

(** Nesting-depth accounting: one more level under [ctxKeyDive]. *)
Definition depth (ctx : context) : Z :=
  match Value ctx ctxKeyDive with
  | Some (CtxInt n) => n
  | _ => 0%Z
  end.

Definition dive (ctx : context) : context :=
  WithValue ctx ctxKeyDive (CtxInt (depth ctx + 1)).

Definition e0 : executor := {| ns := "test"; db := "test" |}.
Definition w0 : world := {| queue := []; guids := 0 |}.

(** Whether a statement names exactly one explicit Thing. *)
Definition single_thing (stm : statement) : bool :=
  match What stm with
  | [Lit (Thing _ _)] => true
  | _ => false
  end.

Definition create (what : list expr) : statement :=
  {| What := what; Data := Lit Null; Echo := tt |}.

(** [CREATE person] *)
Definition create_person : statement := create [Lit (Table "person")].

(** [CREATE person:a, 7, post]: the second target is a number. *)
Definition create_mixed : statement :=
  create [Lit (Thing "person" (Str "a")); Lit (Number 7); Lit (Table "post")].

(** [CREATE 1, <broken>]: a number, then an expression that fails. *)
Definition create_broken : statement :=
  create [Lit (Number 1); Broken "boom"].

Definition tobie : data.Doc :=
  data.Consume (Object [("name", Str "tobie")]).

Definition jaime : data.Doc :=
  data.Consume (Object [("name", Str "jaime")]).


(** [CREATE <row>], the row being a mapping a subquery returned. *)
Definition create_from_row : statement :=
  create [Lit (Object [(docKeyId, Thing "person" (Str "x"))])].

End Toy.

#[global] Instance toy_executor : Executor Toy.expr unit unit Toy.world unit :=
  {| AuthNO := tt; KV := "kv"; access := Toy.access; fetch := Toy.fetch;
     guid_New := Toy.guid_New; newIterator := Toy.newIterator;
     processThing := Toy.processThing; processModel := Toy.processModel;
     processBatch := Toy.processBatch; processOther := Toy.processOther;
     Yield := Toy.Yield; fmt_v := Toy.fmt_v; dive := Toy.dive |}.

Module Scripted.

(** A document whose stages follow a script: the identifier, the stored
    value's existence flag, the verdict of the permission rule, and the
    stage (if any) that fails. *)
Record document : Type :=
  { id : value; exi : bool; permit : bool; fails : option Stage;
    current : value }.

Definition outcome (s : Stage) (d : document) : option error :=
  if decide (fails d = Some s) then Some (Failure "scripted") else None.

Definition stage (s : Stage) (ctx : context) (d : document)
  : document * option error :=
  (d, outcome s d).

Definition method_stage (s : Stage) (ctx : context) (met : unit) (d : document)
  : document * option error :=
  (d, outcome s d).

Definition merge (ctx : context) (met : unit) (data : Toy.expr) (d : document)
  : document * option error :=
  let merged :=
    match data with
    | Toy.Lit (Object m) => Object (data.assign docKeyId (id d) m)
    | _ => Object [(docKeyId, id d)]
    end in
  ({| id := id d; exi := exi d; permit := permit d; fails := fails d;
      current := merged |}, outcome Merged d).

Definition allow (ctx : context) (met : unit) (d : document)
  : document * (bool * option error) :=
  (d, (permit d, outcome PermissionChecked d)).

Definition yield (ctx : context) (stm : Toy.statement) (echo : unit)
  (d : document) : document * result :=
  (d, (current d, outcome Yielded d)).

Definition fresh (failing : option Stage) : document :=
  {| id := Thing "person" (Str "tobie"); exi := false; permit := true;
     fails := failing; current := Null |}.

(** The same record once [merge] has run. *)
Definition merged (failing : option Stage) : document :=
  {| id := Thing "person" (Str "tobie"); exi := false; permit := true;
     fails := failing;
     current := Object [(docKeyId, Thing "person" (Str "tobie"))] |}.

(** A record that is stored already. *)
Definition existing : document :=
  {| id := Thing "person" (Str "tobie"); exi := true; permit := true;
     fails := None; current := Null |}.

(** A record that the permission rule excludes, before and after [merge]. *)
Definition denied : document :=
  {| id := Thing "person" (Str "tobie"); exi := false; permit := false;
     fails := None; current := Null |}.

Definition denied_merged : document :=
  {| id := Thing "person" (Str "tobie"); exi := false; permit := false;
     fails := None;
     current := Object [(docKeyId, Thing "person" (Str "tobie"))] |}.

End Scripted.

#[global] Instance scripted_document
  : Document Toy.expr unit unit Scripted.document :=
  {| _CREATE := tt; d_id := Scripted.id; d_val_Exi := Scripted.exi;
     init := Scripted.stage Init; lock := Scripted.stage Locked;
     setup := Scripted.stage SetUp; merge := Scripted.merge;
     allow := Scripted.allow;
     storeIndex := Scripted.stage IndexStored;
     storeThing := Scripted.stage RecordStored;
     table := Scripted.method_stage TableUpdated;
     lives := Scripted.method_stage LiveNotified;
     event := Scripted.method_stage EventFired;
     yield := Scripted.yield |}.

(** The reference executor behind an access check that refuses everyone. *)
Definition refusing_executor : Executor Toy.expr unit unit Toy.world unit :=
  {| AuthNO := tt; KV := "kv";
     access := fun _ _ _ w => (w, Some (Failure "access"));
     fetch := Toy.fetch;
     guid_New := Toy.guid_New; newIterator := Toy.newIterator;
     processThing := Toy.processThing; processModel := Toy.processModel;
     processBatch := Toy.processBatch; processOther := Toy.processOther;
     Yield := Toy.Yield; fmt_v := Toy.fmt_v; dive := Toy.dive |}.

(** ** Facts about runCreate *)
Section runCreate_facts.

Context {Expr Token method document : Type}.
Context `{!Document Expr Token method document}.
Implicit Types (ctx : context) (stm : CreateStatement Expr Token).
Implicit Types (d : document).

Ltac unfold_run :=
  cbv [runCreate start stages mbind mret pipeline_bind pipeline_ret stage
       existence permission yielded Return enter]; cbn.

(** Case analysis on the outcome of the next call of stage method [f]. *)
Ltac run_stage f :=
  match goal with
  | |- context [f ?c ?m ?x ?a] => destruct (f c m x a) as [? [?|]] eqn:?
  | |- context [f ?c ?m ?a] => destruct (f c m a) as [? [?|]] eqn:?
  | |- context [f ?c ?a] => destruct (f c a) as [? [?|]] eqn:?
  end; cbn.

Ltac next_stage :=
  first
    [ run_stage init | run_stage lock | run_stage setup
    | match goal with
      | |- context [d_val_Exi ?x] => destruct (d_val_Exi x) eqn:?
      end; cbn
    | run_stage merge
    | match goal with
      | |- context [allow ?c ?m ?x] =>
          destruct (allow c m x) as [? [[|] [?|]]] eqn:?
      end; cbn
    | run_stage storeIndex | run_stage storeThing | run_stage table
    | run_stage lives | run_stage event
    | match goal with
      | |- context [yield ?c ?s ?t ?x] =>
          destruct (yield c s t x) as [? [? [?|]]] eqn:?
      end; cbn ].

(** A stage of a literal list is not among the stages of another. *)
Ltac not_entered :=
  let s := fresh "s" in
  let Hs := fresh "Hs" in
  let Hin := fresh "Hin" in
  intros s Hs Hin; apply list_elem_of_In in Hs; apply list_elem_of_In in Hin;
  cbn in Hs, Hin; intuition (subst; discriminate).

Lemma passed_then_failed (l : list entry) x pre s e post :
  Forall (fun en => en.2 = None) l ->
  l ++ [x] = pre ++ (s, Some e) :: post ->
  post = [] /\ x = (s, Some e).
Proof.
  revert pre. induction l as [|en l IH]; intros pre Hl Heq.
  - destruct pre as [|y pre]; simplify_eq/=; [done|].
    by destruct pre.
  - inversion Hl as [|? ? Hen Hl']; subst.
    destruct pre as [|y pre]; simplify_eq/=.
    eauto.
Qed.

Lemma passed_all_none ss : Forall (fun en : entry => en.2 = None) (passed ss).
Proof. unfold passed. induction ss; constructor; auto. Qed.

(** Every run is a stretch of stages that went through, closed by one last
    stage whose error is the error returned; a last stage without error is
    the permission check (the document is skipped) or the yield. *)
Lemma runCreate_shape ctx stm d :
  let r := (runCreate ctx stm d).1 in
  let res := (runCreate ctx stm d).2 in
  exists n s,
    lifecycle !! n = Some s /\
    log r = passed (take n lifecycle) ++ [(s, res.2)] /\
    (res.2 = None -> s = PermissionChecked /\ res.1 = Null \/ s = Yielded).
Proof.
  unfold_run. repeat next_stage;
    match goal with
    | |- exists n s, _ /\ ?l = _ /\ _ => exists (pred (length l))
    end; eexists; (split; [reflexivity|]); (split; [reflexivity|]);
    intros; simplify_eq; auto.
Qed.

(** [runCreate] and the state machine over [lifecycle] leave the same
    document and the same log. *)
Lemma runCreate_state_machine ctx stm d :
  (runCreate ctx stm d).1 =
    state_machine ctx stm lifecycle {| doc := d; log := [] |}.
Proof.
  unfold_run. cbv [state_machine lifecycle perform enter]. cbn.
  repeat next_stage; reflexivity.
Qed.

(** C1: every run of [runCreate] executes the stages in the order of
    [lifecycle], starting at Init.  The run is the run of the state machine
    over the twelve stages: each stage entered is the call of its method on
    the document the stage before left, and the log holds the error of that
    call.  At least Init is entered; the stages entered are an initial
    stretch of the twelve, each but the last without error, so none is
    entered twice; the error of the last one is the error returned, so a
    stage that failed is the last one entered; a run without error went
    through all twelve, or stopped at the permission check. *)
Theorem runCreate_lifecycle_order ctx stm d :
  (runCreate ctx stm d).1 =
    state_machine ctx stm lifecycle {| doc := d; log := [] |} /\
  (exists n s,
     lifecycle !! n = Some s /\
     log (runCreate ctx stm d).1 =
       passed (take n lifecycle) ++ [(s, (runCreate ctx stm d).2.2)]) /\
  stages (runCreate ctx stm d).1 `prefix_of` lifecycle /\
  NoDup (stages (runCreate ctx stm d).1) /\
  (forall pre s e post,
     log (runCreate ctx stm d).1 = pre ++ (s, Some e) :: post ->
     post = [] /\ (runCreate ctx stm d).2.2 = Some e) /\
  ((runCreate ctx stm d).2.2 = None ->
   stages (runCreate ctx stm d).1 = lifecycle \/
   stages (runCreate ctx stm d).1 = take 6 lifecycle).
Proof.
  split; [apply runCreate_state_machine|].
  destruct (runCreate_shape ctx stm d) as (n & s & Hn & Hlog & Hend).
  split; [by exists n, s|].
  assert (Hst : stages (runCreate ctx stm d).1 = take (S n) lifecycle).
  { unfold stages. rewrite Hlog, fmap_app. unfold passed.
    rewrite <- list_fmap_compose, (take_S_r _ _ _ Hn).
    f_equal. exact (list_fmap_id _). }
  split; [|split; [|split]].
  - rewrite Hst. apply prefix_take.
  - rewrite Hst. eapply sublist_NoDup; [|apply sublist_take].
    apply (bool_decide_unpack _). vm_compute. exact I.
  - intros pre s' e post Heq. rewrite Hlog in Heq.
    apply passed_then_failed in Heq as [-> Heq]; [|apply passed_all_none].
    split; [done|]. congruence.
  - intros Hok. rewrite Hst.
    destruct (Hend Hok) as [[-> _] | ->];
      do 12 (destruct n as [|n]; simplify_eq/=; auto).
Qed.

(** C2: when Init, Locked and SetUp went through and the stored value then
    exists, [runCreate] returns the already-exists error carrying [d.id],
    and the run ends with the existence check: none of the eight later
    stages is entered. *)
Theorem runCreate_already_exists ctx stm d d1 d2 d3 :
  init ctx d = (d1, None) ->
  lock ctx d1 = (d2, None) ->
  setup ctx d2 = (d3, None) ->
  d_val_Exi d3 = true ->
  (runCreate ctx stm d).2 = (Null, Some (ExistError (d_id d3))) /\
  stages (runCreate ctx stm d).1 = take 4 lifecycle /\
  (forall s, s ∈ drop 4 lifecycle -> s ∉ stages (runCreate ctx stm d).1).
Proof.
  intros H1 H2 H3 Hexi. unfold_run.
  rewrite H1; cbn. rewrite H2; cbn. rewrite H3; cbn. rewrite Hexi; cbn.
  repeat split. not_entered.
Qed.

(** C5: when the run reaches the permission check and the rule gives
    [false] without an error, [runCreate] returns neither a value nor an
    error, and the permission check is the last stage entered: no index
    write, no record write, no table update, no live notification, no
    event, no yield. *)
Theorem runCreate_permission_denied ctx stm d d1 d2 d3 d4 d5 :
  init ctx d = (d1, None) ->
  lock ctx d1 = (d2, None) ->
  setup ctx d2 = (d3, None) ->
  d_val_Exi d3 = false ->
  merge ctx _CREATE (Data stm) d3 = (d4, None) ->
  allow ctx _CREATE d4 = (d5, (false, None)) ->
  runCreate ctx stm d =
    ({| doc := d5; log := passed (take 6 lifecycle) |}, (Null, None)) /\
  (forall s, s ∈ drop 6 lifecycle -> s ∉ stages (runCreate ctx stm d).1).
Proof.
  intros H1 H2 H3 Hexi H4 H5. unfold_run.
  rewrite H1; cbn. rewrite H2; cbn. rewrite H3; cbn. rewrite Hexi; cbn.
  rewrite H4; cbn. rewrite H5; cbn.
  split; [done|]. not_entered.
Qed.

(** C3, as the code has it: when the run reaches the table update and that
    stage returns an error, [runCreate] returns this very error and no
    value, and the table update is the last stage entered: neither the
    live notification, nor the event, nor the yield runs. *)
Theorem runCreate_table_failure ctx stm d d1 d2 d3 d4 d5 d6 d7 d8 e :
  init ctx d = (d1, None) ->
  lock ctx d1 = (d2, None) ->
  setup ctx d2 = (d3, None) ->
  d_val_Exi d3 = false ->
  merge ctx _CREATE (Data stm) d3 = (d4, None) ->
  allow ctx _CREATE d4 = (d5, (true, None)) ->
  storeIndex ctx d5 = (d6, None) ->
  storeThing ctx d6 = (d7, None) ->
  table ctx _CREATE d7 = (d8, Some e) ->
  runCreate ctx stm d =
    ({| doc := d8;
        log := passed (take 8 lifecycle) ++ [(TableUpdated, Some e)] |},
     (Null, Some e)) /\
  (forall s, s ∈ drop 9 lifecycle -> s ∉ stages (runCreate ctx stm d).1).
Proof.
  intros H1 H2 H3 Hexi H4 H5 H6 H7 H8. unfold_run.
  rewrite H1; cbn. rewrite H2; cbn. rewrite H3; cbn. rewrite Hexi; cbn.
  rewrite H4; cbn. rewrite H5; cbn. rewrite H6; cbn. rewrite H7; cbn.
  rewrite H8; cbn.
  split; [done|]. not_entered.
Qed.

(** C4, as the code has it: when the run reaches the live notification and
    that stage returns an error, [runCreate] returns this very error and no
    value, and the live notification is the last stage entered: neither the
    event nor the yield runs. *)
Theorem runCreate_lives_failure ctx stm d d1 d2 d3 d4 d5 d6 d7 d8 d9 e :
  init ctx d = (d1, None) ->
  lock ctx d1 = (d2, None) ->
  setup ctx d2 = (d3, None) ->
  d_val_Exi d3 = false ->
  merge ctx _CREATE (Data stm) d3 = (d4, None) ->
  allow ctx _CREATE d4 = (d5, (true, None)) ->
  storeIndex ctx d5 = (d6, None) ->
  storeThing ctx d6 = (d7, None) ->
  table ctx _CREATE d7 = (d8, None) ->
  lives ctx _CREATE d8 = (d9, Some e) ->
  runCreate ctx stm d =
    ({| doc := d9;
        log := passed (take 9 lifecycle) ++ [(LiveNotified, Some e)] |},
     (Null, Some e)) /\
  (forall s, s ∈ drop 10 lifecycle -> s ∉ stages (runCreate ctx stm d).1).
Proof.
  intros H1 H2 H3 Hexi H4 H5 H6 H7 H8 H9. unfold_run.
  rewrite H1; cbn. rewrite H2; cbn. rewrite H3; cbn. rewrite Hexi; cbn.
  rewrite H4; cbn. rewrite H5; cbn. rewrite H6; cbn. rewrite H7; cbn.
  rewrite H8; cbn. rewrite H9; cbn.
  split; [done|]. not_entered.
Qed.

(** A run hands back a value only when yield does: a result value other
    than nil means that all eleven stages before the yield went through
    without error, and that the error returned is the one of the yield. *)
Theorem runCreate_value_from_yield ctx stm d :
  (runCreate ctx stm d).2.1 <> Null ->
  stages (runCreate ctx stm d).1 = lifecycle /\
  log (runCreate ctx stm d).1 =
    passed (take 11 lifecycle) ++ [(Yielded, (runCreate ctx stm d).2.2)].
Proof.
  unfold_run. repeat next_stage; intros Hv; try (by destruct Hv); done.
Qed.

(** When every stage goes through and the permission rule allows the
    record, [runCreate] returns the pair of the yield as it is, value and
    error alike: a failing yield keeps its value. *)
Theorem runCreate_full_run ctx stm d d1 d2 d3 d4 d5 d6 d7 d8 d9 d10 d11 v err :
  init ctx d = (d1, None) ->
  lock ctx d1 = (d2, None) ->
  setup ctx d2 = (d3, None) ->
  d_val_Exi d3 = false ->
  merge ctx _CREATE (Data stm) d3 = (d4, None) ->
  allow ctx _CREATE d4 = (d5, (true, None)) ->
  storeIndex ctx d5 = (d6, None) ->
  storeThing ctx d6 = (d7, None) ->
  table ctx _CREATE d7 = (d8, None) ->
  lives ctx _CREATE d8 = (d9, None) ->
  event ctx _CREATE d9 = (d10, None) ->
  yield ctx stm (Echo stm) d10 = (d11, (v, err)) ->
  runCreate ctx stm d =
    ({| doc := d11; log := passed (take 11 lifecycle) ++ [(Yielded, err)] |},
     (v, err)).
Proof.
  intros H1 H2 H3 Hexi H4 H5 H6 H7 H8 H9 H10 H11. unfold_run.
  rewrite H1; cbn. rewrite H2; cbn. rewrite H3; cbn. rewrite Hexi; cbn.
  rewrite H4; cbn. rewrite H5; cbn. rewrite H6; cbn. rewrite H7; cbn.
  rewrite H8; cbn. rewrite H9; cbn. rewrite H10; cbn. by rewrite H11.
Qed.

(** Index before record: when the index write fails, [runCreate] returns
    its error and the record write is never entered, nor is any stage
    after it. *)
Theorem runCreate_index_failure ctx stm d d1 d2 d3 d4 d5 d6 e :
  init ctx d = (d1, None) ->
  lock ctx d1 = (d2, None) ->
  setup ctx d2 = (d3, None) ->
  d_val_Exi d3 = false ->
  merge ctx _CREATE (Data stm) d3 = (d4, None) ->
  allow ctx _CREATE d4 = (d5, (true, None)) ->
  storeIndex ctx d5 = (d6, Some e) ->
  runCreate ctx stm d =
    ({| doc := d6;
        log := passed (take 6 lifecycle) ++ [(IndexStored, Some e)] |},
     (Null, Some e)) /\
  (forall s, s ∈ drop 7 lifecycle -> s ∉ stages (runCreate ctx stm d).1).
Proof.
  intros H1 H2 H3 Hexi H4 H5 H6. unfold_run.
  rewrite H1; cbn. rewrite H2; cbn. rewrite H3; cbn. rewrite Hexi; cbn.
  rewrite H4; cbn. rewrite H5; cbn. rewrite H6; cbn.
  split; [done|]. not_entered.
Qed.

(** A failing event trigger fails the run after the record was written:
    [runCreate] returns the error of the event and no value, the index and
    record writes are among the stages entered, the yield is not. *)
Theorem runCreate_event_failure
  ctx stm d d1 d2 d3 d4 d5 d6 d7 d8 d9 d10 e :
  init ctx d = (d1, None) ->
  lock ctx d1 = (d2, None) ->
  setup ctx d2 = (d3, None) ->
  d_val_Exi d3 = false ->
  merge ctx _CREATE (Data stm) d3 = (d4, None) ->
  allow ctx _CREATE d4 = (d5, (true, None)) ->
  storeIndex ctx d5 = (d6, None) ->
  storeThing ctx d6 = (d7, None) ->
  table ctx _CREATE d7 = (d8, None) ->
  lives ctx _CREATE d8 = (d9, None) ->
  event ctx _CREATE d9 = (d10, Some e) ->
  (runCreate ctx stm d).2 = (Null, Some e) /\
  doc (runCreate ctx stm d).1 = d10 /\
  IndexStored ∈ stages (runCreate ctx stm d).1 /\
  RecordStored ∈ stages (runCreate ctx stm d).1 /\
  Yielded ∉ stages (runCreate ctx stm d).1.
Proof.
  intros H1 H2 H3 Hexi H4 H5 H6 H7 H8 H9 H10. unfold_run.
  rewrite H1; cbn. rewrite H2; cbn. rewrite H3; cbn. rewrite Hexi; cbn.
  rewrite H4; cbn. rewrite H5; cbn. rewrite H6; cbn. rewrite H7; cbn.
  rewrite H8; cbn. rewrite H9; cbn. rewrite H10; cbn.
  repeat split; try (apply list_elem_of_In; cbn; tauto).
  intros Hin. apply list_elem_of_In in Hin. cbn in Hin.
  intuition discriminate.
Qed.

End runCreate_facts.

(** ** Facts about executeCreate and fetchCreate *)
Section executeCreate_facts.

Context {Expr Token auth world iterator : Type}.
Context `{!Executor Expr Token auth world iterator}.
Implicit Types (e : executor) (ctx : context) (i : iterator) (w : world).
Implicit Types (stm : CreateStatement Expr Token) (v : value).

(** A supported value is handed to the iterator; that never fails. *)
Lemma target_supported i e ctx v w :
  supported v = true -> (target i e ctx v w).2 = None.
Proof.
  destruct v; cbn; try discriminate; intros _; try reflexivity;
    by destruct (guid_New w).
Qed.

Lemma target_unsupported i e ctx v w :
  supported v = false -> target i e ctx v w = (w, Some (unsupported v)).
Proof. by destruct v. Qed.

Lemma targets_app i e ctx pre post w :
  targets i e ctx (pre ++ post) w =
    match targets i e ctx pre w with
    | (w1, Some er) => (w1, Some er)
    | (w1, None) => targets i e ctx post w1
    end.
Proof.
  revert w. induction pre as [|v pre IH]; intros w; cbn; [done|].
  destruct (target i e ctx v w) as [w1 [er|]]; [done|]. apply IH.
Qed.

Lemma targets_supported i e ctx what w :
  forallb supported what = true -> (targets i e ctx what w).2 = None.
Proof.
  revert w. induction what as [|v what IH]; intros w Hall; cbn; [done|].
  cbn in Hall. apply andb_prop in Hall as [Hv Hall].
  pose proof (target_supported i e ctx v w Hv) as Hnone.
  destruct (target i e ctx v w) as [w1 [er|]]; [done|]. by apply IH.
Qed.

(** C6, as the code has it: when the access check passes and every WHAT
    expression evaluates without error, the first evaluated value [v]
    outside the supported kinds makes [executeCreate] fail with the error
    that names [v], with no results; the world is the one left by the
    targets before [v], so no later target is processed and the iterator
    is not drained. *)
Theorem executeCreate_unsupported e ctx stm w w1 w2 w3 i pre v post :
  access e ctx AuthNO w = (w1, None) ->
  fetchWhat e ctx (What stm) [] w1 = (w2, (pre ++ v :: post, None)) ->
  forallb supported pre = true ->
  supported v = false ->
  newIterator e ctx stm false w2 = (w3, i) ->
  executeCreate e ctx stm w =
    ((targets i e ctx pre w3).1, ([], Some (unsupported v))).
Proof.
  intros Hacc Hwhat Hpre Hv Hit. unfold executeCreate, executeWhat.
  rewrite Hacc, Hwhat, Hit, targets_app.
  pose proof (targets_supported i e ctx pre w3 Hpre) as Hnone.
  destruct (targets i e ctx pre w3) as [w4 err]; cbn in *; subst err.
  by rewrite (target_unsupported _ _ _ _ _ Hv).
Qed.

(** What [executeCreate] does with a value that the switch hands on: the
    targets before it are processed, then the value, then the targets after
    it, and the iterator is drained unless one of those fails. *)
Lemma executeCreate_dispatch e ctx stm w w1 w2 w3 w5 i pre v post :
  access e ctx AuthNO w = (w1, None) ->
  fetchWhat e ctx (What stm) [] w1 = (w2, (pre ++ v :: post, None)) ->
  forallb supported pre = true ->
  newIterator e ctx stm false w2 = (w3, i) ->
  target i e ctx v (targets i e ctx pre w3).1 = (w5, None) ->
  executeCreate e ctx stm w =
    match targets i e ctx post w5 with
    | (w6, Some er) => (w6, ([], Some er))
    | (w6, None) => Yield i ctx w6
    end.
Proof.
  intros Hacc Hwhat Hpre Hit Hv. unfold executeCreate, executeWhat.
  rewrite Hacc, Hwhat, Hit, targets_app.
  pose proof (targets_supported i e ctx pre w3 Hpre) as Hnone.
  destruct (targets i e ctx pre w3) as [w4 err]; cbn in *; subst err.
  rewrite Hv. by destruct (targets i e ctx post w5) as [w6 [er|]].
Qed.

(** C9: when a WHAT expression evaluates to a single mapping [m],
    [executeCreate] hands the one-element sequence holding [m] to
    [processOther], under the key that has no table and no identifier, and
    that is all it does for the value; it does the very same when the
    expression evaluates to that one-element sequence.  So the switch, the
    loop over the evaluated values and the rest of the call treat the
    mapping and the sequence alike. *)
Theorem executeCreate_single_mapping e ctx stm w w1 w2 w3 i pre v m post :
  access e ctx AuthNO w = (w1, None) ->
  fetchWhat e ctx (What stm) [] w1 = (w2, (pre ++ v :: post, None)) ->
  v = Object m \/ v = Array [Object m] ->
  forallb supported pre = true ->
  newIterator e ctx stm false w2 = (w3, i) ->
  executeCreate e ctx stm w =
    match
      targets i e ctx post
        (processOther i ctx (bareKey e) [Object m] (targets i e ctx pre w3).1)
    with
    | (w6, Some er) => (w6, ([], Some er))
    | (w6, None) => Yield i ctx w6
    end /\
  keys.TB (bareKey e) = "" /\ keys.ID (bareKey e) = Null /\
  (forall w',
     target i e ctx (Object m) w' =
       (processOther i ctx (bareKey e) [Object m] w', None) /\
     target i e ctx (Array [Object m]) w' =
       (processOther i ctx (bareKey e) [Object m] w', None) /\
     targets i e ctx (pre ++ Object m :: post) w' =
       targets i e ctx (pre ++ Array [Object m] :: post) w' /\
     executeWhat e ctx stm (pre ++ Object m :: post) w' =
       executeWhat e ctx stm (pre ++ Array [Object m] :: post) w').
Proof.
  intros Hacc Hwhat Hv Hpre Hit. split.
  - apply (executeCreate_dispatch e ctx stm w w1 w2 w3 _ i pre v post);
      try done.
    by destruct Hv as [-> | ->].
  - repeat split.
    + rewrite !targets_app.
      by destruct (targets i e ctx pre w') as [w4 [er|]].
    + unfold executeWhat.
      destruct (newIterator e ctx stm false w') as [w4 i'].
      rewrite !targets_app.
      by destruct (targets i' e ctx pre w4) as [w5 [er|]].
Qed.


(** The frame built for a calling document, spelled out. *)
Lemma frame_calling ctx (doc : data.Doc) :
  frame ctx (Some doc) =
    WithValue (dive ctx) ctxKeySubs
      (CtxDoc (data.Consume (Object
         [(varKeyParent, data.Data doc);
          (varKeyParents,
           Array (enclosing (dive ctx) ++ data.items (data.Data doc)))]))).
Proof.
  unfold frame, enclosing.
  by destruct (Value (dive ctx) ctxKeySubs) as [[subs| |]|].
Qed.

Lemma enclosing_parents ctx ps :
  currentParents ctx = Some ps -> enclosing ctx = ps.
Proof.
  unfold currentParents, currentFrame, enclosing.
  destruct (Value ctx ctxKeySubs) as [[subs| |]|]; try by intros [= <-].
  by destruct (data.get [varKeyParents] (data.Data subs)); intros [= <-].
Qed.

(** What the frame of a calling document binds, given the parents of the
    enclosing frame. *)
Lemma frame_bindings ctx (doc : data.Doc) ps :
  is_array (data.Data doc) = false ->
  currentParents (dive ctx) = Some ps ->
  currentParent (frame ctx (Some doc)) = Some (data.Data doc) /\
  currentParents (frame ctx (Some doc)) = Some (ps ++ [data.Data doc]).
Proof.
  intros Hdoc Hps. rewrite frame_calling, (enclosing_parents _ _ Hps).
  split; [reflexivity|].
  unfold currentParents; cbn. by destruct (data.Data doc).
Qed.


(** C10: without a calling document the context handed to [executeCreate]
    is [dive ctx] and nothing more; as [dive] leaves the binding of
    [ctxKeySubs] alone, the frame in force, [$parent] and [$parents] are
    those of the caller. *)
Theorem fetchCreate_no_document e ctx stm w :
  (forall c, Value (dive c) ctxKeySubs = Value c ctxKeySubs) ->
  frame ctx None = dive ctx /\
  Value (frame ctx None) ctxKeySubs = Value ctx ctxKeySubs /\
  currentParent (frame ctx None) = currentParent ctx /\
  currentParents (frame ctx None) = currentParents ctx /\
  fetchCreate e ctx stm None w = collect (executeCreate e (dive ctx) stm w).
Proof.
  intros Hdive. unfold currentParent, currentParents, currentFrame.
  cbn [frame]. rewrite Hdive. by repeat split.
Qed.

(** C8, as the code has it: what decides is the number of rows that
    [executeCreate] returned, not the shape of the statement.  With exactly
    one row [fetchCreate] returns a bare value, the [docKeyId] path of that
    row; with any other number it returns a sequence, the [docKeyId] path
    of every row in order. *)
Theorem fetchCreate_unwraps_one_row e ctx stm doc w w' out :
  executeCreate e (frame ctx doc) stm w = (w', (out, None)) ->
  fetchCreate e ctx stm doc w =
    (w', (match out with
          | [row] => data.get [docKeyId] row
          | _ => Array (data.get [docKeyId] <$> out)
          end, None)).
Proof.
  intros Hout. unfold fetchCreate, collect. rewrite Hout.
  by destruct out as [|row [|row' out]].
Qed.

(** *** Further facts *)

Lemma fetchWhat_app e ctx pre post acc w :
  fetchWhat e ctx (pre ++ post) acc w =
    match fetchWhat e ctx pre acc w with
    | (w1, (what, None)) => fetchWhat e ctx post what w1
    | (w1, (_, Some er)) => (w1, ([], Some er))
    end.
Proof.
  revert acc w. induction pre as [|val pre IH]; intros acc w; cbn; [done|].
  destruct (fetch e ctx val None w) as [w1 [v [er|]]]; [done|]. apply IH.
Qed.

Lemma fetchWhat_extends e ctx vals acc w w' what :
  fetchWhat e ctx vals acc w = (w', (what, None)) ->
  exists vs, what = acc ++ vs /\ length vs = length vals.
Proof.
  revert acc w. induction vals as [|val vals IH]; intros acc w; cbn.
  - intros [= <- <-]. exists []. by rewrite app_nil_r.
  - destruct (fetch e ctx val None w) as [w1 [v [er|]]]; [done|].
    intros Hrest. apply IH in Hrest as (vs & -> & Hlen).
    exists (v :: vs). rewrite <- app_assoc. cbn. auto.
Qed.

(** Without access nothing happens: when the access check fails,
    [executeCreate] returns its error and no results, and the world is the
    one the check left; no expression is evaluated, no iterator made. *)
Theorem executeCreate_access_denied e ctx stm w w1 er :
  access e ctx AuthNO w = (w1, Some er) ->
  executeCreate e ctx stm w = (w1, ([], Some er)).
Proof. intros Hacc. unfold executeCreate. by rewrite Hacc. Qed.

(** The first WHAT expression that fails to evaluate ends the call with its
    error and no results; the expressions after it are not evaluated and no
    target is processed, whatever the values before it were. *)
Theorem executeCreate_evaluation_failure
  e ctx stm w w1 w2 w3 pre val post vs v er :
  access e ctx AuthNO w = (w1, None) ->
  What stm = pre ++ val :: post ->
  fetchWhat e ctx pre [] w1 = (w2, (vs, None)) ->
  fetch e ctx val None w2 = (w3, (v, Some er)) ->
  executeCreate e ctx stm w = (w3, ([], Some er)).
Proof.
  intros Hacc Hwhat Hpre Hval. unfold executeCreate.
  rewrite Hacc, Hwhat, fetchWhat_app, Hpre. cbn. by rewrite Hval.
Qed.

(** When the first loop succeeds it has one value for each WHAT expression,
    no more and no fewer. *)
Theorem fetchWhat_one_value_each e ctx vals w w' what :
  fetchWhat e ctx vals [] w = (w', (what, None)) ->
  length what = length vals.
Proof.
  intros Hwhat. by apply fetchWhat_extends in Hwhat as (vs & -> & Hlen).
Qed.

Lemma targets_error i e ctx what w er :
  (targets i e ctx what w).2 = Some er ->
  exists v, v ∈ what /\ supported v = false /\ er = unsupported v.
Proof.
  revert w. induction what as [|v what IH]; intros w; cbn; [done|].
  destruct (supported v) eqn:Hv.
  - pose proof (target_supported i e ctx v w Hv) as Hnone.
    destruct (target i e ctx v w) as [w1 [er'|]]; [done|].
    intros Her. apply IH in Her as (v' & Hin & Hv' & ->).
    exists v'. split; [by apply list_elem_of_further|done].
  - rewrite (target_unsupported _ _ _ _ _ Hv). cbn. intros [= <-].
    exists v. split; [apply list_elem_of_here|done].
Qed.

(** The second loop fails exactly when some evaluated value is of no
    supported kind, and its error then names such a value: handing a
    supported value to the iterator never fails. *)
Theorem targets_fail_iff_unsupported i e ctx what w :
  ((targets i e ctx what w).2 = None <-> forallb supported what = true) /\
  (forall er, (targets i e ctx what w).2 = Some er ->
     exists v, v ∈ what /\ supported v = false /\ er = unsupported v).
Proof.
  split; [|intros er; apply targets_error].
  split; [|apply targets_supported].
  intros Hnone. destruct (forallb supported what) eqn:Hall; [done|].
  exfalso. revert w Hnone.
  induction what as [|v what IH]; intros w; cbn in *; [done|].
  destruct (supported v) eqn:Hv; cbn in Hall.
  - pose proof (target_supported i e ctx v w Hv) as Hn.
    destruct (target i e ctx v w) as [w1 [er'|]]; [done|]. by apply IH.
  - by rewrite (target_unsupported _ _ _ _ _ Hv).
Qed.

(** With access granted, every expression evaluated and every value of a
    supported kind, the outcome of [executeCreate] is the outcome of the
    iterator's [Yield], run on the world the targets left: from there on
    the call adds no failure and drops no result of its own. *)
Theorem executeCreate_yields e ctx stm w w1 w2 w3 i what :
  access e ctx AuthNO w = (w1, None) ->
  fetchWhat e ctx (What stm) [] w1 = (w2, (what, None)) ->
  forallb supported what = true ->
  newIterator e ctx stm false w2 = (w3, i) ->
  executeCreate e ctx stm w = Yield i ctx (targets i e ctx what w3).1.
Proof.
  intros Hacc Hwhat Hall Hit. unfold executeCreate, executeWhat.
  rewrite Hacc, Hwhat, Hit.
  pose proof (targets_supported i e ctx what w3 Hall) as Hnone.
  destruct (targets i e ctx what w3) as [w4 err]; cbn in *. by subst err.
Qed.

(** A table and a bare identifier of the same name are one kind of target:
    for either, [executeCreate] draws one fresh identifier from the world
    the earlier targets left and hands [processThing] the key of that name
    and that identifier, and that is all it does for the value; so the
    switch, the loop and the rest of the call cannot tell them apart. *)
Theorem executeCreate_table_ident e ctx stm w w1 w2 w3 w5 i pre v tb g post :
  access e ctx AuthNO w = (w1, None) ->
  fetchWhat e ctx (What stm) [] w1 = (w2, (pre ++ v :: post, None)) ->
  v = Table tb \/ v = Ident tb ->
  forallb supported pre = true ->
  newIterator e ctx stm false w2 = (w3, i) ->
  guid_New (targets i e ctx pre w3).1 = (w5, g) ->
  executeCreate e ctx stm w =
    match
      targets i e ctx post (processThing i ctx (thingKey e tb (Str g)) w5)
    with
    | (w6, Some er) => (w6, ([], Some er))
    | (w6, None) => Yield i ctx w6
    end /\
  (forall w',
     target i e ctx (Table tb) w' = target i e ctx (Ident tb) w' /\
     targets i e ctx (pre ++ Table tb :: post) w' =
       targets i e ctx (pre ++ Ident tb :: post) w' /\
     executeWhat e ctx stm (pre ++ Table tb :: post) w' =
       executeWhat e ctx stm (pre ++ Ident tb :: post) w').
Proof.
  intros Hacc Hwhat Hv Hpre Hit Hg. split.
  - apply (executeCreate_dispatch e ctx stm w w1 w2 w3 _ i pre v post);
      try done.
    destruct Hv as [-> | ->]; cbn; by rewrite Hg.
  - intros w'. split; [done|]. split.
    + rewrite !targets_app.
      by destruct (targets i e ctx pre w') as [w4 [er|]].
    + unfold executeWhat.
      destruct (newIterator e ctx stm false w') as [w4 i'].
      rewrite !targets_app.
      by destruct (targets i' e ctx pre w4) as [w6 [er|]].
Qed.

(** A failure of [executeCreate] is the failure of [fetchCreate]: same
    error, same world, and a nil value, whatever rows came with the
    error. *)
Theorem fetchCreate_failure e ctx stm doc w w' out er :
  executeCreate e (frame ctx doc) stm w = (w', (out, Some er)) ->
  fetchCreate e ctx stm doc w = (w', (Null, Some er)).
Proof. intros Hout. unfold fetchCreate, collect. by rewrite Hout. Qed.

(** [fetchCreate] rebinds [ctxKeySubs] and nothing else: under any other
    key the context handed to [executeCreate] holds what [dive] left
    there, with or without a calling document. *)
Theorem frame_other_keys ctx doc k :
  k <> ctxKeySubs ->
  Value (frame ctx doc) k = Value (dive ctx) k.
Proof.
  intros Hk. destruct doc as [doc|]; [|done].
  rewrite frame_calling. cbn. by destruct k.
Qed.

Lemma frame_always_bound_parent ctx (doc : data.Doc) :
  currentParent (frame ctx (Some doc)) = Some (data.Data doc).
Proof. by rewrite frame_calling. Qed.

(** Whatever the context and whatever the calling document, the frame that
    [fetchCreate] builds binds [$parent] to the document's data and
    [$parents] to a sequence: what the frame in force contributes, then
    what the document contributes.  A frame so built is never malformed. *)
Theorem frame_always_bound ctx (doc : data.Doc) :
  currentParent (frame ctx (Some doc)) = Some (data.Data doc) /\
  currentParents (frame ctx (Some doc)) =
    Some (enclosing (dive ctx) ++ data.items (data.Data doc)).
Proof. by rewrite frame_calling. Qed.

Lemma nested_parents ctx (docs : list data.Doc) ps :
  (forall c, Value (dive c) ctxKeySubs = Value c ctxKeySubs) ->
  Forall (fun doc => is_array (data.Data doc) = false) docs ->
  currentParents ctx = Some ps ->
  currentParents (nested ctx docs) = Some (ps ++ (data.Data <$> docs)).
Proof.
  intros Hdive Hdocs. revert ctx ps.
  induction Hdocs as [|doc docs Hdoc Hdocs IH]; intros ctx ps Hps.
  - cbn. by rewrite app_nil_r.
  - assert (Hps' : currentParents (dive ctx) = Some ps).
    { revert Hps. unfold currentParents, currentFrame. by rewrite Hdive. }
    destruct (frame_bindings ctx doc ps Hdoc Hps') as [_ Hpp].
    cbn [nested fold_left]. fold (nested (frame ctx (Some doc)) docs).
    rewrite (IH _ _ Hpp), <- app_assoc. done.
Qed.

(** Nesting keeps the chain: through any chain of nested CREATEs whose
    calling documents are records, [$parents] is the sequence of the start
    followed by the data of the calling documents, outermost first, and
    [$parent] is the data of the innermost one. *)
Theorem nested_parents_chain ctx (docs : list data.Doc) (doc : data.Doc) ps :
  (forall c, Value (dive c) ctxKeySubs = Value c ctxKeySubs) ->
  Forall (fun doc => is_array (data.Data doc) = false) (docs ++ [doc]) ->
  currentParents ctx = Some ps ->
  currentParents (nested ctx (docs ++ [doc])) =
    Some (ps ++ (data.Data <$> docs) ++ [data.Data doc]) /\
  currentParent (nested ctx (docs ++ [doc])) = Some (data.Data doc).
Proof.
  intros Hdive Hdocs Hps. split.
  - rewrite (nested_parents _ _ _ Hdive Hdocs Hps). by rewrite fmap_app.
  - unfold nested. rewrite fold_left_app. cbn.
    apply frame_always_bound_parent.
Qed.

End executeCreate_facts.

(** ** The embedding at work on the reference collaborators *)

(** A record that no stage refuses goes through the whole lifecycle. *)
Example runCreate_fresh_record :
  runCreate [] Toy.create_person (Scripted.fresh None) =
    ({| doc := Scripted.merged None; log := passed lifecycle |},
     (Object [(docKeyId, Thing "person" (Str "tobie"))], None)).
Proof. reflexivity. Qed.

(** Two explicit Things give two rows, in the order of the statement. *)
Example executeCreate_two_things :
  executeCreate Toy.e0 []
    (Toy.create [Toy.Lit (Thing "person" (Str "a"));
                 Toy.Lit (Thing "person" (Str "b"))]) Toy.w0 =
    (Toy.w0,
     ([Object [(docKeyId, Thing "person" (Str "a"))];
       Object [(docKeyId, Thing "person" (Str "b"))]], None)).
Proof. reflexivity. Qed.

(** ... and [fetchCreate] then returns the sequence of their identifiers. *)
Example fetchCreate_two_things :
  (fetchCreate Toy.e0 []
     (Toy.create [Toy.Lit (Thing "person" (Str "a"));
                  Toy.Lit (Thing "person" (Str "b"))]) None Toy.w0).2 =
    (Array [Thing "person" (Str "a"); Thing "person" (Str "b")], None).
Proof. reflexivity. Qed.

(** The frame of a CREATE nested in tobie, nested in nothing. *)
Example frame_of_tobie :
  Value (frame [] (Some Toy.tobie)) ctxKeySubs =
    Some (CtxDoc (data.Consume (Object
      [(varKeyParent, data.Data Toy.tobie);
       (varKeyParents, Array [data.Data Toy.tobie])]))).
Proof. reflexivity. Qed.

Lemma toy_dive_keeps_frame (c : context) :
  Value (dive c) ctxKeySubs = Value c ctxKeySubs.
Proof. reflexivity. Defined.

(** C2 at work: creating a record that is stored already. *)
Lemma runCreate_already_exists_witness :
  (runCreate [] Toy.create_person Scripted.existing).2 =
    (Null, Some (ExistError (Thing "person" (Str "tobie")))) /\
  stages (runCreate [] Toy.create_person Scripted.existing).1 =
    take 4 lifecycle /\
  (forall s, s ∈ drop 4 lifecycle ->
     s ∉ stages (runCreate [] Toy.create_person Scripted.existing).1).
Proof.
  exact (runCreate_already_exists [] Toy.create_person
           Scripted.existing Scripted.existing Scripted.existing
           Scripted.existing eq_refl eq_refl eq_refl eq_refl).
Defined.

(** C5 at work: creating a record that the permission rule excludes. *)
Lemma runCreate_permission_denied_witness :
  runCreate [] Toy.create_person Scripted.denied =
    ({| doc := Scripted.denied_merged; log := passed (take 6 lifecycle) |},
     (Null, None)) /\
  (forall s, s ∈ drop 6 lifecycle ->
     s ∉ stages (runCreate [] Toy.create_person Scripted.denied).1).
Proof.
  exact (runCreate_permission_denied [] Toy.create_person
           Scripted.denied Scripted.denied Scripted.denied Scripted.denied
           Scripted.denied_merged Scripted.denied_merged
           eq_refl eq_refl eq_refl eq_refl eq_refl eq_refl).
Defined.

(** C3: a record whose table update fails; [runCreate] fails with the error
    of the table update. *)
Lemma runCreate_table_failure_counterexample :
  table [] tt (Scripted.merged (Some TableUpdated)) =
    (Scripted.merged (Some TableUpdated), Some (Failure "scripted")) /\
  log (runCreate [] Toy.create_person (Scripted.fresh (Some TableUpdated))).1
    !! 8 = Some (TableUpdated, Some (Failure "scripted")) /\
  (runCreate [] Toy.create_person (Scripted.fresh (Some TableUpdated))).2 =
    (Null, Some (Failure "scripted")).
Proof. by vm_compute. Qed.

(** C3, amended, at work on the same record. *)
Lemma runCreate_table_failure_witness :
  runCreate [] Toy.create_person (Scripted.fresh (Some TableUpdated)) =
    ({| doc := Scripted.merged (Some TableUpdated);
        log := passed (take 8 lifecycle) ++
               [(TableUpdated, Some (Failure "scripted"))] |},
     (Null, Some (Failure "scripted"))) /\
  (forall s, s ∈ drop 9 lifecycle ->
     s ∉ stages (runCreate [] Toy.create_person
                   (Scripted.fresh (Some TableUpdated))).1).
Proof.
  exact (runCreate_table_failure [] Toy.create_person
           (Scripted.fresh (Some TableUpdated))
           (Scripted.fresh (Some TableUpdated))
           (Scripted.fresh (Some TableUpdated))
           (Scripted.fresh (Some TableUpdated))
           (Scripted.merged (Some TableUpdated))
           (Scripted.merged (Some TableUpdated))
           (Scripted.merged (Some TableUpdated))
           (Scripted.merged (Some TableUpdated))
           (Scripted.merged (Some TableUpdated))
           (Failure "scripted")
           eq_refl eq_refl eq_refl eq_refl eq_refl eq_refl eq_refl eq_refl
           eq_refl).
Defined.

(** C4: a record whose live notification fails; [runCreate] fails with the
    error of the live notification. *)
Lemma runCreate_lives_failure_counterexample :
  lives [] tt (Scripted.merged (Some LiveNotified)) =
    (Scripted.merged (Some LiveNotified), Some (Failure "scripted")) /\
  log (runCreate [] Toy.create_person (Scripted.fresh (Some LiveNotified))).1
    !! 9 = Some (LiveNotified, Some (Failure "scripted")) /\
  (runCreate [] Toy.create_person (Scripted.fresh (Some LiveNotified))).2 =
    (Null, Some (Failure "scripted")).
Proof. by vm_compute. Qed.

(** C4, amended, at work on the same record. *)
Lemma runCreate_lives_failure_witness :
  runCreate [] Toy.create_person (Scripted.fresh (Some LiveNotified)) =
    ({| doc := Scripted.merged (Some LiveNotified);
        log := passed (take 9 lifecycle) ++
               [(LiveNotified, Some (Failure "scripted"))] |},
     (Null, Some (Failure "scripted"))) /\
  (forall s, s ∈ drop 10 lifecycle ->
     s ∉ stages (runCreate [] Toy.create_person
                   (Scripted.fresh (Some LiveNotified))).1).
Proof.
  exact (runCreate_lives_failure [] Toy.create_person
           (Scripted.fresh (Some LiveNotified))
           (Scripted.fresh (Some LiveNotified))
           (Scripted.fresh (Some LiveNotified))
           (Scripted.fresh (Some LiveNotified))
           (Scripted.merged (Some LiveNotified))
           (Scripted.merged (Some LiveNotified))
           (Scripted.merged (Some LiveNotified))
           (Scripted.merged (Some LiveNotified))
           (Scripted.merged (Some LiveNotified))
           (Scripted.merged (Some LiveNotified))
           (Failure "scripted")
           eq_refl eq_refl eq_refl eq_refl eq_refl eq_refl eq_refl eq_refl
           eq_refl eq_refl).
Defined.

(** C6: the first WHAT expression evaluates to the number 1, a kind the
    switch has no case for, and [executeCreate] fails with the error of the
    second expression: no error names the number. *)
Lemma executeCreate_unsupported_counterexample :
  What Toy.create_broken = [Toy.Lit (Number 1); Toy.Broken "boom"] /\
  fetch Toy.e0 [] (Toy.Lit (Number 1)) None Toy.w0 =
    (Toy.w0, (Number 1, None)) /\
  supported (Number 1) = false /\
  executeCreate Toy.e0 [] Toy.create_broken Toy.w0 =
    (Toy.w0, ([], Some (Failure "boom"))) /\
  Some (Failure "boom") <> Some (unsupported (Number 1)).
Proof. by vm_compute. Qed.

(** C6, amended, at work: [CREATE person:a, 7, post] fails on the 7 after
    person:a was handed to the iterator; post is never looked at. *)
Lemma executeCreate_unsupported_witness :
  executeCreate Toy.e0 [] Toy.create_mixed Toy.w0 =
    ((targets tt Toy.e0 [] [Thing "person" (Str "a")] Toy.w0).1,
     ([], Some (unsupported (Number 7)))).
Proof.
  exact (executeCreate_unsupported Toy.e0 [] Toy.create_mixed
           Toy.w0 Toy.w0 Toy.w0 Toy.w0 tt
           [Thing "person" (Str "a")] (Number 7) [Table "post"]
           eq_refl eq_refl eq_refl eq_refl eq_refl).
Defined.



(** C9 at work: [CREATE <row>] hands the row, as a one-element sequence,
    to [processOther] and drains the iterator. *)
Lemma executeCreate_single_mapping_witness :
  executeCreate Toy.e0 [] Toy.create_from_row Toy.w0 =
    match
      targets tt Toy.e0 [] []
        (processOther tt [] (bareKey Toy.e0)
           [Object [(docKeyId, Thing "person" (Str "x"))]]
           (targets tt Toy.e0 [] [] Toy.w0).1)
    with
    | (w6, Some er) => (w6, ([], Some er))
    | (w6, None) => Yield tt [] w6
    end.
Proof.
  exact (proj1 (executeCreate_single_mapping Toy.e0 [] Toy.create_from_row
           Toy.w0 Toy.w0 Toy.w0 Toy.w0 tt []
           (Object [(docKeyId, Thing "person" (Str "x"))])
           [(docKeyId, Thing "person" (Str "x"))] []
           eq_refl eq_refl (or_introl eq_refl) eq_refl eq_refl)).
Defined.

(** C10 at work: a nested CREATE without a calling document, inside the
    frame of tobie. *)
Lemma fetchCreate_no_document_witness :
  frame (frame [] (Some Toy.tobie)) None = dive (frame [] (Some Toy.tobie)) /\
  Value (frame (frame [] (Some Toy.tobie)) None) ctxKeySubs =
    Value (frame [] (Some Toy.tobie)) ctxKeySubs /\
  currentParent (frame (frame [] (Some Toy.tobie)) None) =
    currentParent (frame [] (Some Toy.tobie)) /\
  currentParents (frame (frame [] (Some Toy.tobie)) None) =
    currentParents (frame [] (Some Toy.tobie)) /\
  fetchCreate Toy.e0 (frame [] (Some Toy.tobie)) Toy.create_person None
    Toy.w0 =
    collect
      (executeCreate Toy.e0 (dive (frame [] (Some Toy.tobie)))
         Toy.create_person Toy.w0).
Proof.
  exact (fetchCreate_no_document Toy.e0 (frame [] (Some Toy.tobie))
           Toy.create_person Toy.w0 toy_dive_keeps_frame).
Defined.

(** C8: [CREATE person] names a table, not an explicit Thing, and yet
    [fetchCreate] returns a bare value, not a sequence. *)
Lemma fetchCreate_unwraps_counterexample :
  Toy.single_thing Toy.create_person = false /\
  fetchCreate Toy.e0 [] Toy.create_person None Toy.w0 =
    ({| Toy.queue := []; Toy.guids := 1 |},
     (Thing "person" (Str "g"), None)) /\
  is_array (Thing "person" (Str "g")) = false.
Proof. by vm_compute. Qed.

(** C8, amended, at work on the same statement. *)
Lemma fetchCreate_unwraps_one_row_witness :
  fetchCreate Toy.e0 [] Toy.create_person None Toy.w0 =
    ({| Toy.queue := []; Toy.guids := 1 |},
     (data.get [docKeyId]
        (Object [(docKeyId, Thing "person" (Str "g"))]), None)).
Proof.
  exact (fetchCreate_unwraps_one_row Toy.e0 [] Toy.create_person None
           Toy.w0 {| Toy.queue := []; Toy.guids := 1 |}
           [Object [(docKeyId, Thing "person" (Str "g"))]] eq_refl).
Defined.

(** *** Further facts at work *)

Lemma runCreate_value_from_yield_witness :
  stages (runCreate [] Toy.create_person (Scripted.fresh None)).1 =
    lifecycle /\
  log (runCreate [] Toy.create_person (Scripted.fresh None)).1 =
    passed (take 11 lifecycle) ++
    [(Yielded, (runCreate [] Toy.create_person (Scripted.fresh None)).2.2)].
Proof. apply runCreate_value_from_yield. by vm_compute. Defined.

(** A record whose yield fails: the value of the yield comes back with its
    error. *)
Lemma runCreate_full_run_witness :
  runCreate [] Toy.create_person (Scripted.fresh (Some Yielded)) =
    ({| doc := Scripted.merged (Some Yielded);
        log := passed (take 11 lifecycle) ++
               [(Yielded, Some (Failure "scripted"))] |},
     (Object [(docKeyId, Thing "person" (Str "tobie"))],
      Some (Failure "scripted"))).
Proof.
  exact (runCreate_full_run [] Toy.create_person
           (Scripted.fresh (Some Yielded))
           (Scripted.fresh (Some Yielded))
           (Scripted.fresh (Some Yielded))
           (Scripted.fresh (Some Yielded))
           (Scripted.merged (Some Yielded))
           (Scripted.merged (Some Yielded))
           (Scripted.merged (Some Yielded))
           (Scripted.merged (Some Yielded))
           (Scripted.merged (Some Yielded))
           (Scripted.merged (Some Yielded))
           (Scripted.merged (Some Yielded))
           (Scripted.merged (Some Yielded))
           (Object [(docKeyId, Thing "person" (Str "tobie"))])
           (Some (Failure "scripted"))
           eq_refl eq_refl eq_refl eq_refl eq_refl eq_refl eq_refl eq_refl
           eq_refl eq_refl eq_refl eq_refl).
Defined.

Lemma runCreate_index_failure_witness :
  runCreate [] Toy.create_person (Scripted.fresh (Some IndexStored)) =
    ({| doc := Scripted.merged (Some IndexStored);
        log := passed (take 6 lifecycle) ++
               [(IndexStored, Some (Failure "scripted"))] |},
     (Null, Some (Failure "scripted"))) /\
  (forall s, s ∈ drop 7 lifecycle ->
     s ∉ stages (runCreate [] Toy.create_person
                   (Scripted.fresh (Some IndexStored))).1).
Proof.
  exact (runCreate_index_failure [] Toy.create_person
           (Scripted.fresh (Some IndexStored))
           (Scripted.fresh (Some IndexStored))
           (Scripted.fresh (Some IndexStored))
           (Scripted.fresh (Some IndexStored))
           (Scripted.merged (Some IndexStored))
           (Scripted.merged (Some IndexStored))
           (Scripted.merged (Some IndexStored))
           (Failure "scripted")
           eq_refl eq_refl eq_refl eq_refl eq_refl eq_refl eq_refl).
Defined.

Lemma runCreate_event_failure_witness :
  (runCreate [] Toy.create_person (Scripted.fresh (Some EventFired))).2 =
    (Null, Some (Failure "scripted")) /\
  doc (runCreate [] Toy.create_person (Scripted.fresh (Some EventFired))).1 =
    Scripted.merged (Some EventFired) /\
  IndexStored ∈
    stages (runCreate [] Toy.create_person
              (Scripted.fresh (Some EventFired))).1 /\
  RecordStored ∈
    stages (runCreate [] Toy.create_person
              (Scripted.fresh (Some EventFired))).1 /\
  Yielded ∉
    stages (runCreate [] Toy.create_person
              (Scripted.fresh (Some EventFired))).1.
Proof.
  exact (runCreate_event_failure [] Toy.create_person
           (Scripted.fresh (Some EventFired))
           (Scripted.fresh (Some EventFired))
           (Scripted.fresh (Some EventFired))
           (Scripted.fresh (Some EventFired))
           (Scripted.merged (Some EventFired))
           (Scripted.merged (Some EventFired))
           (Scripted.merged (Some EventFired))
           (Scripted.merged (Some EventFired))
           (Scripted.merged (Some EventFired))
           (Scripted.merged (Some EventFired))
           (Scripted.merged (Some EventFired))
           (Failure "scripted")
           eq_refl eq_refl eq_refl eq_refl eq_refl eq_refl eq_refl eq_refl
           eq_refl eq_refl eq_refl).
Defined.

Lemma executeCreate_access_denied_witness :
  @executeCreate _ _ _ _ _ refusing_executor Toy.e0 [] Toy.create_person
    Toy.w0 =
    (Toy.w0, ([], Some (Failure "access"))).
Proof.
  exact (@executeCreate_access_denied _ _ _ _ _ refusing_executor Toy.e0 []
           Toy.create_person Toy.w0 Toy.w0 (Failure "access") eq_refl).
Defined.

(** [CREATE a, <broken>, b]: the table before the broken expression is
    evaluated, the one after it is not, and nothing is created. *)
Lemma executeCreate_evaluation_failure_witness :
  executeCreate Toy.e0 []
    (Toy.create [Toy.Lit (Table "a"); Toy.Broken "boom"; Toy.Lit (Table "b")])
    Toy.w0 =
    (Toy.w0, ([], Some (Failure "boom"))).
Proof.
  exact (executeCreate_evaluation_failure Toy.e0 []
           (Toy.create
              [Toy.Lit (Table "a"); Toy.Broken "boom"; Toy.Lit (Table "b")])
           Toy.w0 Toy.w0 Toy.w0 Toy.w0
           [Toy.Lit (Table "a")] (Toy.Broken "boom") [Toy.Lit (Table "b")]
           [Table "a"] Null (Failure "boom")
           eq_refl eq_refl eq_refl eq_refl).
Defined.

Lemma fetchWhat_one_value_each_witness :
  length [Thing "person" (Str "a"); Number 7; Table "post"] =
    length (What Toy.create_mixed).
Proof.
  exact (fetchWhat_one_value_each Toy.e0 [] (What Toy.create_mixed)
           Toy.w0 Toy.w0
           [Thing "person" (Str "a"); Number 7; Table "post"] eq_refl).
Defined.

Lemma executeCreate_yields_witness :
  executeCreate Toy.e0 [] Toy.create_person Toy.w0 =
    Yield tt [] (targets tt Toy.e0 [] [Table "person"] Toy.w0).1.
Proof.
  exact (executeCreate_yields Toy.e0 [] Toy.create_person
           Toy.w0 Toy.w0 Toy.w0 Toy.w0 tt [Table "person"]
           eq_refl eq_refl eq_refl eq_refl).
Defined.

Lemma fetchCreate_failure_witness :
  fetchCreate Toy.e0 [] Toy.create_broken (Some Toy.tobie) Toy.w0 =
    (Toy.w0, (Null, Some (Failure "boom"))).
Proof.
  exact (fetchCreate_failure Toy.e0 [] Toy.create_broken (Some Toy.tobie)
           Toy.w0 Toy.w0 [] (Failure "boom") eq_refl).
Defined.

Lemma frame_other_keys_witness :
  Value (frame [] (Some Toy.tobie)) ctxKeyDive = Value (dive []) ctxKeyDive.
Proof. apply frame_other_keys. discriminate. Defined.

Lemma nested_parents_chain_witness :
  currentParents (nested [] ([Toy.tobie] ++ [Toy.jaime])) =
    Some ([] ++ (data.Data <$> [Toy.tobie]) ++ [data.Data Toy.jaime]) /\
  currentParent (nested [] ([Toy.tobie] ++ [Toy.jaime])) =
    Some (data.Data Toy.jaime).
Proof.
  apply nested_parents_chain.
  - exact toy_dive_keeps_frame.
  - repeat constructor.
  - reflexivity.
Defined.

(** [CREATE person:a, post]: the table draws the first identifier. *)
Lemma executeCreate_table_ident_witness :
  executeCreate Toy.e0 []
    (Toy.create [Toy.Lit (Thing "person" (Str "a")); Toy.Lit (Table "post")])
    Toy.w0 =
    match
      targets tt Toy.e0 [] []
        (processThing tt [] (thingKey Toy.e0 "post" (Str "g"))
           (Toy.guid_New
              (targets tt Toy.e0 [] [Thing "person" (Str "a")] Toy.w0).1).1)
    with
    | (w6, Some er) => (w6, ([], Some er))
    | (w6, None) => Yield tt [] w6
    end.
Proof.
  exact (proj1 (executeCreate_table_ident Toy.e0 []
           (Toy.create
              [Toy.Lit (Thing "person" (Str "a")); Toy.Lit (Table "post")])
           Toy.w0 Toy.w0 Toy.w0 Toy.w0
           (Toy.guid_New
              (targets tt Toy.e0 [] [Thing "person" (Str "a")] Toy.w0).1).1
           tt [Thing "person" (Str "a")] (Table "post") "post" "g" []
           eq_refl eq_refl (or_introl eq_refl) eq_refl eq_refl eq_refl)).
Defined.
